(** * Activity signups: [src/activities.py]

    A shallow embedding of [signup_participant] and [unregister_participant]
    together with the properties of the roster they maintain.

    The Python functions receive the [activities] dictionary by reference
    and mutate the participants list of one activity in place.  The
    embedding therefore keeps a store of objects: the dictionary maps an
    activity name to a reference to an activity object, and an activity
    object holds a reference to its participants list.  Two names may refer
    to one activity object, and two activity objects to one list, exactly as
    in Python. *)

From stdpp Require Import gmap strings list fin_maps.

Open Scope Z_scope.

Module Activities.

(** ** Exceptions

    [ActivityNotFound] and [ParticipantNotFound] are the two classes of the
    module; [ValueError] and [KeyError] are the built-in ones that the
    statements of the two functions can raise.  Messages are not modelled. *)

Inductive exn : Type :=
  | ActivityNotFound
  | ParticipantNotFound
  | ValueError
  | KeyError.

#[global] Instance exn_eq_dec : EqDecision exn.
Proof. solve_decision. Defined.

(** ** Objects and the store *)

(** Object identities. *)
Abbreviation loc := nat.

(** An activity object: the dictionary with the four keys the callers build,
    ["description"], ["schedule"], ["max_participants"] and
    ["participants"]; the last one holds a reference to a list object. *)
Record Activity : Type := mkActivity {
  description : string;
  schedule : string;
  max_participants : Z;
  participants : loc
}.

#[global] Instance Activity_eq_dec : EqDecision Activity.
Proof. solve_decision. Defined.

(** The store reachable from the [activities] argument: the dictionary
    itself ([roster]), the activity objects and the list objects. *)
Record Store : Type := mkStore {
  roster : gmap string loc;
  records : gmap loc Activity;
  lists : gmap loc (list string)
}.

#[global] Instance Store_eq_dec : EqDecision Store.
Proof. solve_decision. Defined.

Definition set_lists (f : gmap loc (list string) → gmap loc (list string))
    (σ : Store) : Store :=
  {| roster := roster σ; records := records σ; lists := f (lists σ) |}.

(** ** Statements with effects

    A statement runs in a store and either returns a value or raises an
    exception; in both cases the store it leaves behind is part of the
    outcome, since a raise does not undo earlier mutations.  [None] stands
    for a reference that denotes no object, which no Python store has. *)

Inductive result (A : Type) : Type :=
  | Return (a : A)
  | Raise (e : exn).
Arguments Return {A} a.
Arguments Raise {A} e.

Definition M (A : Type) : Type := Store → option (result A * Store).

#[global] Instance M_ret : MRet M := λ A a σ, Some (Return a, σ).

#[global] Instance M_bind : MBind M := λ A B k m σ,
  match m σ with
  | Some (Return a, σ') => k a σ'
  | Some (Raise e, σ') => Some (Raise e, σ')
  | None => None
  end.

Definition raise {A : Type} (e : exn) : M A := λ σ, Some (Raise e, σ).

(** [name in activities] *)
Definition dict_contains (name : string) : M bool := λ σ,
  Some (Return (bool_decide (is_Some (roster σ !! name))), σ).

(** [activities[name]] *)
Definition dict_getitem (name : string) : M loc := λ σ,
  match roster σ !! name with
  | Some r => Some (Return r, σ)
  | None => Some (Raise KeyError, σ)
  end.

(** [activity["participants"]] *)
Definition getitem_participants (r : loc) : M loc := λ σ,
  match records σ !! r with
  | Some a => Some (Return (participants a), σ)
  | None => None
  end.

(** [x in l] on a list object *)
Definition list_contains (l : loc) (x : string) : M bool := λ σ,
  match lists σ !! l with
  | Some xs => Some (Return (bool_decide (x ∈ xs)), σ)
  | None => None
  end.

(** [l.append(x)] *)
Definition list_append (l : loc) (x : string) : M unit := λ σ,
  match lists σ !! l with
  | Some xs => Some (Return (), set_lists <[l := xs ++ [x]]> σ)
  | None => None
  end.

(** What [list.remove] does to the elements: the first item equal to [x]
    is dropped; [None] when no item is equal to [x]. *)
Fixpoint remove_first (x : string) (xs : list string) : option (list string) :=
  match xs with
  | [] => None
  | y :: ys =>
      if decide (y = x) then Some ys
      else cons y <$> remove_first x ys
  end.

(** [l.remove(x)] *)
Definition list_remove (l : loc) (x : string) : M unit := λ σ,
  match lists σ !! l with
  | Some xs =>
      match remove_first x xs with
      | Some xs' => Some (Return (), set_lists <[l := xs']> σ)
      | None => Some (Raise ValueError, σ)
      end
  | None => None
  end.

(** ** The two operations *)

Definition signup_participant (activities : Store)
    (activity_name email : string) : option (result unit * Store) :=
  (found ← dict_contains activity_name;
   if negb found then raise ActivityNotFound else
   activity ← dict_getitem activity_name;
   ps ← getitem_participants activity;
   already ← list_contains ps email;
   if (already : bool) then raise ValueError else
   ps' ← getitem_participants activity;
   list_append ps' email : M unit) activities.

Definition unregister_participant (activities : Store)
    (activity_name email : string) : option (result unit * Store) :=
  (found ← dict_contains activity_name;
   if negb found then raise ActivityNotFound else
   activity ← dict_getitem activity_name;
   ps ← getitem_participants activity;
   present ← list_contains ps email;
   if negb present then raise ParticipantNotFound else
   ps' ← getitem_participants activity;
   list_remove ps' email : M unit) activities.

(** ** Reading the store *)

(** The activity object a name refers to. *)
Definition get_activity (σ : Store) (name : string) : option Activity :=
  r ← roster σ !! name; records σ !! r.

(** [activities[name]["participants"]] as a list of identifiers. *)
Definition get_participants (σ : Store) (name : string) : option (list string) :=
  a ← get_activity σ name; lists σ !! participants a.

(** Every reference reachable from the dictionary denotes an object. *)
Definition well_formed (σ : Store) : Prop :=
  map_Forall (λ _ r, is_Some (records σ !! r)) (roster σ) ∧
  map_Forall (λ _ a, is_Some (lists σ !! participants a)) (records σ).

#[global] Instance well_formed_dec σ : Decision (well_formed σ).
Proof. unfold well_formed. apply _. Defined.

(** The call ends by raising [e]. *)
Definition raises {A : Type} (o : option (result A * Store)) (e : exn) : Prop :=
  ∃ σ', o = Some (Raise e, σ').

(** The invariant of the data model: no list of participants holds an
    identifier twice. *)
Definition no_duplicates (σ : Store) : Prop :=
  ∀ name ps, get_participants σ name = Some ps → NoDup ps.

(** How many times [x] occurs in [xs]. *)
Definition occurrences (x : string) (xs : list string) : nat :=
  length (filter (λ y, y = x) xs).

(** The value of [activities[name]]: the three scalar fields and the
    elements of the participants list. *)
Definition snapshot (σ : Store) (name : string)
    : option (string * string * Z * list string) :=
  a ← get_activity σ name;
  ps ← lists σ !! participants a;
  Some (description a, schedule a, max_participants a, ps).

(** The same store with every ["max_participants"] replaced by [f] of it. *)
Definition with_capacity (f : Z → Z) (a : Activity) : Activity :=
  {| description := description a; schedule := schedule a;
     max_participants := f (max_participants a);
     participants := participants a |}.

Definition map_capacity (f : Z → Z) (σ : Store) : Store :=
  {| roster := roster σ; records := with_capacity f <$> records σ;
     lists := lists σ |}.

(** ** Sample stores (the fixtures of [tests/test_activities.py]) *)

Definition chess : Activity :=
  mkActivity "Learn chess strategies" "Friday 3:30 PM" 12 0%nat.
Definition basketball : Activity :=
  mkActivity "Play basketball" "Monday 4:00 PM" 15 1%nat.

Definition sample_signup : Store :=
  mkStore {[ "Chess Club" := 0%nat; "Basketball" := 1%nat ]}
          {[ 0%nat := chess; 1%nat := basketball ]}
          {[ 0%nat := ["alice@school.edu"]; 1%nat := [] ]}.

Definition sample_unregister : Store :=
  mkStore {[ "Chess Club" := 0%nat; "Basketball" := 1%nat ]}
          {[ 0%nat := chess; 1%nat := basketball ]}
          {[ 0%nat := ["alice@school.edu"; "bob@school.edu"];
             1%nat := ["charlie@school.edu"] ]}.

(** A store in which two activities hold one list object, as built by
    [members = ["alice@school.edu"]] followed by
    [activities = {"Chess Club": {..., "participants": members},
                   "Chess Team": {..., "participants": members}}]. *)
Definition chess_team : Activity :=
  mkActivity "Play in tournaments" "Saturday 10:00 AM" 8 0%nat.

Definition sample_shared : Store :=
  mkStore {[ "Chess Club" := 0%nat; "Chess Team" := 1%nat ]}
          {[ 0%nat := chess; 1%nat := chess_team ]}
          {[ 0%nat := ["alice@school.edu"] ]}.

Definition sample_shared_after : Store :=
  mkStore {[ "Chess Club" := 0%nat; "Chess Team" := 1%nat ]}
          {[ 0%nat := chess; 1%nat := chess_team ]}
          {[ 0%nat := ["alice@school.edu"; "bob@school.edu"] ]}.

(** A store whose only activity is full: one place, one participant. *)
Definition sample_full : Store :=
  mkStore {[ "Chess Club" := 0%nat ]}
          {[ 0%nat := mkActivity "Learn chess strategies" "Friday 3:30 PM" 1 0%nat ]}
          {[ 0%nat := ["alice@school.edu"] ]}.

(** The loop of [test_multiple_signups_and_unregisters]:
    [for student in students: signup_participant(activities, name, student)].
    The first call that raises ends the loop, and what the earlier calls
    appended stays. *)
Fixpoint signup_each (activities : Store) (activity_name : string)
    (students : list string) : option (result unit * Store) :=
  match students with
  | [] => Some (Return (), activities)
  | student :: rest =>
      match signup_participant activities activity_name student with
      | Some (Return _, activities') => signup_each activities' activity_name rest
      | Some (Raise e, activities') => Some (Raise e, activities')
      | None => None
      end
  end.

(** ** Facts about [remove_first] *)

Section remove_first.
Implicit Types (x y : string) (xs ys : list string).

Lemma remove_first_None x xs : remove_first x xs = None ↔ x ∉ xs.
Proof.
  induction xs as [|y ys IH]; simpl.
  - split; [intros _; apply not_elem_of_nil | done].
  - rewrite not_elem_of_cons. case_decide as Hy.
    + split; [done | intros [Hne _]; congruence].
    + rewrite fmap_None, IH. intuition congruence.
Qed.

Lemma remove_first_Some x xs xs' :
  remove_first x xs = Some xs' ↔
  ∃ l1 l2, xs = l1 ++ x :: l2 ∧ (x ∉ l1) ∧ xs' = l1 ++ l2.
Proof.
  revert xs'. induction xs as [|y ys IH]; intros xs'; simpl.
  - split; [done | intros (l1 & l2 & Heq & _)]. by destruct l1.
  - case_decide as Hy.
    + subst y. split.
      * intros [= <-]. exists [], ys. split_and!; [done | apply not_elem_of_nil | done].
      * intros (l1 & l2 & Heq & Hnin & ->). destruct l1 as [|z l1].
        -- simpl in Heq. by injection Heq as <-.
        -- injection Heq as <- _. exfalso. apply Hnin. left.
    + rewrite fmap_Some. split.
      * intros (zs & Hzs & ->). apply IH in Hzs as (l1 & l2 & -> & Hnin & ->).
        exists (y :: l1), l2. split_and!; [done | | done].
        rewrite not_elem_of_cons. split; [congruence | done].
      * intros (l1 & l2 & Heq & Hnin & ->). destruct l1 as [|z l1].
        -- simpl in Heq. injection Heq as Hyx _. congruence.
        -- injection Heq as <- ->. apply not_elem_of_cons in Hnin as [_ Hnin].
           exists (l1 ++ l2). split; [| done]. apply IH. by exists l1, l2.
Qed.

Lemma remove_first_is_Some x xs : x ∈ xs → is_Some (remove_first x xs).
Proof.
  intros Hin. destruct (remove_first x xs) eqn:E; [by eexists |].
  by apply remove_first_None in E.
Qed.

Lemma remove_first_length x xs xs' :
  remove_first x xs = Some xs' → S (length xs') = length xs.
Proof.
  intros (l1 & l2 & -> & _ & ->)%remove_first_Some.
  rewrite !length_app. simpl. lia.
Qed.

Lemma remove_first_snoc x xs : x ∉ xs → remove_first x (xs ++ [x]) = Some xs.
Proof.
  intros Hnin. apply remove_first_Some. exists xs, [].
  by rewrite app_nil_r.
Qed.

Lemma remove_first_sublist x xs xs' :
  remove_first x xs = Some xs' → sublist xs' xs.
Proof.
  intros (l1 & l2 & -> & _ & ->)%remove_first_Some.
  apply sublist_app; [done |]. by apply sublist_cons.
Qed.

Lemma remove_first_NoDup x xs xs' :
  remove_first x xs = Some xs' → NoDup xs → NoDup xs' ∧ x ∉ xs'.
Proof.
  intros (l1 & l2 & -> & Hnin & ->)%remove_first_Some Hnd.
  apply NoDup_app in Hnd as (Hl1 & Hdisj & Hl2).
  apply NoDup_cons in Hl2 as [Hx Hl2]. split.
  - apply NoDup_app. split_and!; [done | | done].
    intros z Hz1 Hz2. apply (Hdisj z Hz1). by right.
  - rewrite elem_of_app. tauto.
Qed.
End remove_first.

(** ** The operations in closed form *)

Lemma signup_participant_run σ name e :
  signup_participant σ name e =
  match roster σ !! name with
  | None => Some (Raise ActivityNotFound, σ)
  | Some r =>
      a ← records σ !! r;
      ps ← lists σ !! participants a;
      Some (if bool_decide (e ∈ ps) then (Raise ValueError, σ)
            else (Return (), set_lists <[participants a := ps ++ [e]]> σ))
  end.
Proof.
  unfold signup_participant, mbind, M_bind, dict_contains, dict_getitem,
    getitem_participants, list_contains, list_append, raise.
  destruct (roster σ !! name) as [r|] eqn:Hr; simpl; rewrite ?Hr; [| done].
  destruct (records σ !! r) as [a|] eqn:Ha; simpl; rewrite ?Ha; [| done].
  destruct (lists σ !! participants a) as [ps|] eqn:Hps; simpl; [| done].
  case_bool_decide; simpl; [done |]. by rewrite Ha, Hps.
Qed.

Lemma unregister_participant_run σ name e :
  unregister_participant σ name e =
  match roster σ !! name with
  | None => Some (Raise ActivityNotFound, σ)
  | Some r =>
      a ← records σ !! r;
      ps ← lists σ !! participants a;
      Some (match remove_first e ps with
            | None => (Raise ParticipantNotFound, σ)
            | Some ps' => (Return (), set_lists <[participants a := ps']> σ)
            end)
  end.
Proof.
  unfold unregister_participant, mbind, M_bind, dict_contains, dict_getitem,
    getitem_participants, list_contains, list_remove, raise.
  destruct (roster σ !! name) as [r|] eqn:Hr; simpl; rewrite ?Hr; [| done].
  destruct (records σ !! r) as [a|] eqn:Ha; simpl; rewrite ?Ha; [| done].
  destruct (lists σ !! participants a) as [ps|] eqn:Hps; simpl; [| done].
  case_bool_decide as Hin; simpl.
  - rewrite Ha, Hps. by destruct (remove_first_is_Some e ps Hin) as [ps' ->].
  - by apply remove_first_None in Hin as ->.
Qed.

(** ** The store seen through the dictionary *)

Lemma get_participants_Some σ name ps :
  get_participants σ name = Some ps ↔
  ∃ r a, roster σ !! name = Some r ∧ records σ !! r = Some a ∧
         lists σ !! participants a = Some ps.
Proof.
  unfold get_participants, get_activity. split.
  - intros (a & (r & Hr & Ha)%bind_Some & Hps)%bind_Some. by exists r, a.
  - intros (r & a & Hr & Ha & Hps). by rewrite Hr; simpl; rewrite Ha.
Qed.

Lemma well_formed_participants σ name :
  well_formed σ → is_Some (roster σ !! name) →
  is_Some (get_participants σ name).
Proof.
  intros [Hro Hre] [r Hr].
  destruct (Hro _ _ Hr) as [a Ha]. destruct (Hre _ _ Ha) as [ps Hps].
  exists ps. apply get_participants_Some. by exists r, a.
Qed.

Lemma get_activity_set_lists f σ name :
  get_activity (set_lists f σ) name = get_activity σ name.
Proof. done. Qed.

(** After the list object [l] has been given the elements [v], an activity
    sees [v] if its list is [l] and what it saw before otherwise. *)
Lemma get_participants_set_lists σ l v name :
  get_participants (set_lists <[l := v]> σ) name =
  a ← get_activity σ name;
  if decide (participants a = l) then Some v else lists σ !! participants a.
Proof.
  unfold get_participants. rewrite get_activity_set_lists.
  destruct (get_activity σ name) as [a|]; simpl; [| done].
  case_decide as Hl.
  - subst l. apply lookup_insert_eq.
  - by apply lookup_insert_ne.
Qed.

Lemma get_participants_updated σ name r a v :
  roster σ !! name = Some r → records σ !! r = Some a →
  get_participants (set_lists <[participants a := v]> σ) name = Some v.
Proof.
  intros Hr Ha. rewrite get_participants_set_lists. unfold get_activity.
  rewrite Hr; simpl. rewrite Ha; simpl. by rewrite decide_True.
Qed.

(** Closed facts about the sample stores are settled by evaluation. *)
Ltac by_evaluation :=
  lazymatch goal with
  | |- well_formed _ => apply (bool_decide_unpack _); vm_compute; exact I
  | |- _ ∉ _ => apply (bool_decide_unpack _); vm_compute; exact I
  | |- _ ∈ _ => apply (bool_decide_unpack _); vm_compute; exact I
  | |- _ => vm_compute; reflexivity
  end.

(** The two runs that return. *)
Lemma signup_participant_fresh σ name e r a ps :
  roster σ !! name = Some r → records σ !! r = Some a →
  lists σ !! participants a = Some ps → e ∉ ps →
  signup_participant σ name e
    = Some (Return (), set_lists <[participants a := ps ++ [e]]> σ).
Proof.
  intros Hr Ha Hps Hnin. rewrite signup_participant_run, Hr; simpl.
  rewrite Ha; simpl. rewrite Hps; simpl. by rewrite bool_decide_eq_false_2.
Qed.

Lemma unregister_participant_present σ name e r a ps ps' :
  roster σ !! name = Some r → records σ !! r = Some a →
  lists σ !! participants a = Some ps → remove_first e ps = Some ps' →
  unregister_participant σ name e
    = Some (Return (), set_lists <[participants a := ps']> σ).
Proof.
  intros Hr Ha Hps Hrm. rewrite unregister_participant_run, Hr; simpl.
  rewrite Ha; simpl. rewrite Hps; simpl. by rewrite Hrm.
Qed.

(** ** Outcomes of [signup_participant] *)

(** C1. On a well-formed store, [signup_participant] raises
    [ActivityNotFound] exactly when the name is not a key of the dictionary;
    when it is a key, the call raises [ValueError] exactly when the
    identifier is in that activity's participants list, and otherwise it
    returns and the list is the old one with the identifier appended. *)
Theorem signup_outcome σ name e :
  well_formed σ →
  (raises (signup_participant σ name e) ActivityNotFound ↔
     roster σ !! name = None) ∧
  (is_Some (roster σ !! name) →
   ∃ ps, get_participants σ name = Some ps ∧
     (raises (signup_participant σ name e) ValueError ↔ e ∈ ps) ∧
     (e ∉ ps →
      ∃ σ', signup_participant σ name e = Some (Return (), σ') ∧
            get_participants σ' name = Some (ps ++ [e]))).
Proof.
  intros Hwf. rewrite signup_participant_run. split.
  - destruct (roster σ !! name) as [r|] eqn:Hr.
    + split; [| done]. intros [σ' Hrun]. exfalso.
      destruct (records σ !! r) as [a|]; simpl in Hrun; [| done].
      destruct (lists σ !! participants a) as [ps|]; simpl in Hrun; [| done].
      by case_bool_decide.
    + split; [done | intros _; by exists σ].
  - intros Hkey.
    destruct (well_formed_participants σ name Hwf Hkey) as [ps Hps].
    exists ps. split; [done |].
    apply get_participants_Some in Hps as (r & a & Hr & Ha & Hps).
    rewrite Hr; simpl. rewrite Ha; simpl. rewrite Hps; simpl. split.
    + case_bool_decide; split; try done.
      * intros _. by exists σ.
      * by intros [σ' [=]].
    + intros Hnin. rewrite bool_decide_eq_false_2 by done.
      eexists. split; [done |]. by eapply get_participants_updated.
Qed.

Lemma signup_outcome_witness :
  well_formed sample_signup ∧
  raises (signup_participant sample_signup "Chess Club" "alice@school.edu")
         ValueError.
Proof.
  assert (Hwf : well_formed sample_signup) by by_evaluation.
  split; [exact Hwf |].
  destruct (signup_outcome sample_signup "Chess Club" "alice@school.edu" Hwf)
    as [_ Hkey].
  destruct Hkey as (ps & Hps & Hdup & _); [by eexists |].
  apply Hdup. injection Hps as <-. by_evaluation.
Defined.

(** ** Outcomes of [unregister_participant] *)

(** C2. On a well-formed store, [unregister_participant] raises
    [ActivityNotFound] exactly when the name is not a key of the dictionary;
    when it is a key, the call raises [ParticipantNotFound] exactly when the
    identifier is not in that activity's participants list, and otherwise it
    returns and the list is the old one without the first occurrence of the
    identifier. *)
Theorem unregister_outcome σ name e :
  well_formed σ →
  (raises (unregister_participant σ name e) ActivityNotFound ↔
     roster σ !! name = None) ∧
  (is_Some (roster σ !! name) →
   ∃ ps, get_participants σ name = Some ps ∧
     (raises (unregister_participant σ name e) ParticipantNotFound ↔ e ∉ ps) ∧
     (e ∈ ps →
      ∃ σ' l1 l2, unregister_participant σ name e = Some (Return (), σ') ∧
            ps = l1 ++ e :: l2 ∧ (e ∉ l1) ∧
            get_participants σ' name = Some (l1 ++ l2))).
Proof.
  intros Hwf. rewrite unregister_participant_run. split.
  - destruct (roster σ !! name) as [r|] eqn:Hr.
    + split; [| done]. intros [σ' Hrun]. exfalso.
      destruct (records σ !! r) as [a|]; simpl in Hrun; [| done].
      destruct (lists σ !! participants a) as [ps|]; simpl in Hrun; [| done].
      by destruct (remove_first e ps).
    + split; [done | intros _; by exists σ].
  - intros Hkey.
    destruct (well_formed_participants σ name Hwf Hkey) as [ps Hps].
    exists ps. split; [done |].
    apply get_participants_Some in Hps as (r & a & Hr & Ha & Hps).
    rewrite Hr; simpl. rewrite Ha; simpl. rewrite Hps; simpl. split.
    + destruct (remove_first e ps) as [ps'|] eqn:Hrm.
      * split; [by intros [σ' [=]] |]. intros Hnin.
        apply remove_first_None in Hnin. congruence.
      * apply remove_first_None in Hrm. split; [done |]. intros _. by exists σ.
    + intros Hin. destruct (remove_first_is_Some e ps Hin) as [ps' Hrm].
      rewrite Hrm. apply remove_first_Some in Hrm as (l1 & l2 & -> & Hnin & ->).
      eexists _, l1, l2. split_and!; [done | done | done |].
      by eapply get_participants_updated.
Qed.

Lemma unregister_outcome_witness :
  well_formed sample_unregister ∧
  raises (unregister_participant sample_unregister "Basketball"
            "alice@school.edu") ParticipantNotFound.
Proof.
  assert (Hwf : well_formed sample_unregister) by by_evaluation.
  split; [exact Hwf |].
  destruct (unregister_outcome sample_unregister "Basketball"
              "alice@school.edu" Hwf) as [_ Hkey].
  destruct Hkey as (ps & Hps & Habsent & _); [by eexists |].
  apply Habsent. injection Hps as <-. by_evaluation.
Defined.

(** ** Successful calls *)

Lemma occurrences_fresh e ps : e ∉ ps → occurrences e ps = 0%nat.
Proof.
  unfold occurrences. induction ps as [|y ys IH]; [done |].
  rewrite not_elem_of_cons. intros [Hne Hnin].
  rewrite filter_cons_False by congruence. auto.
Qed.

Lemma occurrences_snoc e ps : e ∉ ps → occurrences e (ps ++ [e]) = 1%nat.
Proof.
  intros Hnin. unfold occurrences. rewrite filter_app, length_app.
  fold (occurrences e ps). rewrite (occurrences_fresh e ps Hnin).
  by rewrite filter_cons_True.
Qed.

(** C3. When the named activity exists and its participants list [ps] does
    not hold the identifier, [signup_participant] returns; afterwards the
    list is [ps] followed by the identifier: it holds the identifier once,
    is one longer, and starts with the elements of [ps] in their order. *)
Theorem signup_appends σ name e ps :
  get_participants σ name = Some ps →
  e ∉ ps →
  ∃ σ' ps',
    signup_participant σ name e = Some (Return (), σ') ∧
    get_participants σ' name = Some ps' ∧
    ps' = ps ++ [e] ∧
    occurrences e ps' = 1%nat ∧
    length ps' = S (length ps) ∧
    take (length ps) ps' = ps.
Proof.
  intros (r & a & Hr & Ha & Hps)%get_participants_Some Hnin.
  eexists _, (ps ++ [e]). split_and!; [| | done | | |].
  - by eapply signup_participant_fresh.
  - by eapply get_participants_updated.
  - by apply occurrences_snoc.
  - rewrite length_app. simpl. lia.
  - by rewrite take_app_length.
Qed.

Lemma signup_appends_witness :
  ∃ σ',
    signup_participant sample_signup "Chess Club" "bob@school.edu"
      = Some (Return (), σ') ∧
    get_participants σ' "Chess Club"
      = Some ["alice@school.edu"; "bob@school.edu"].
Proof.
  destruct (signup_appends sample_signup "Chess Club" "bob@school.edu"
              ["alice@school.edu"]) as (σ' & ps' & Hrun & Hps' & -> & _);
    [by_evaluation | by_evaluation |].
  by exists σ'.
Defined.

(** C4. When the named activity exists and its participants list [ps] holds
    the identifier, [unregister_participant] returns; afterwards the list is
    [ps] without the first occurrence of the identifier: the elements
    before and after that occurrence follow each other unchanged, and the
    list is one shorter. *)
Theorem unregister_removes_first σ name e ps :
  get_participants σ name = Some ps →
  e ∈ ps →
  ∃ σ' ps' l1 l2,
    unregister_participant σ name e = Some (Return (), σ') ∧
    get_participants σ' name = Some ps' ∧
    ps = l1 ++ e :: l2 ∧ (e ∉ l1) ∧ ps' = l1 ++ l2 ∧
    S (length ps') = length ps ∧
    sublist ps' ps.
Proof.
  intros (r & a & Hr & Ha & Hps)%get_participants_Some Hin.
  destruct (remove_first_is_Some e ps Hin) as [ps' Hrm].
  pose proof (remove_first_length _ _ _ Hrm) as Hlen.
  pose proof (remove_first_sublist _ _ _ Hrm) as Hsub.
  pose proof Hrm as (l1 & l2 & Heq & Hnin & Hps')%remove_first_Some.
  eexists _, ps', l1, l2. split_and!; try done.
  - by eapply unregister_participant_present.
  - by eapply get_participants_updated.
Qed.

Lemma unregister_removes_first_witness :
  ∃ σ' ps',
    unregister_participant sample_unregister "Chess Club" "alice@school.edu"
      = Some (Return (), σ') ∧
    get_participants σ' "Chess Club" = Some ps' ∧
    S (length ps') = 2%nat.
Proof.
  destruct (unregister_removes_first sample_unregister "Chess Club"
              "alice@school.edu" ["alice@school.edu"; "bob@school.edu"])
    as (σ' & ps' & l1 & l2 & Hrun & Hps' & _ & _ & _ & Hlen & _);
    [by_evaluation | by_evaluation |].
  by exists σ', ps'.
Defined.

(** ** Failing calls leave the store alone *)

(** C5. When the named activity exists and its participants list already
    holds the identifier, [signup_participant] raises [ValueError] and the
    store after the call is the store before it. *)
Theorem signup_duplicate_unchanged σ name e ps :
  get_participants σ name = Some ps →
  e ∈ ps →
  signup_participant σ name e = Some (Raise ValueError, σ).
Proof.
  intros (r & a & Hr & Ha & Hps)%get_participants_Some Hin.
  rewrite signup_participant_run, Hr; simpl. rewrite Ha; simpl.
  rewrite Hps; simpl. by rewrite bool_decide_eq_true_2.
Qed.

Lemma signup_duplicate_unchanged_witness :
  signup_participant sample_signup "Chess Club" "alice@school.edu"
    = Some (Raise ValueError, sample_signup).
Proof.
  apply (signup_duplicate_unchanged _ _ _ ["alice@school.edu"]);
    by_evaluation.
Defined.

(** C6. A [signup_participant] on a name that is not a key raises
    [ActivityNotFound] and leaves the store as it was; so does an
    [unregister_participant] on such a name; and an
    [unregister_participant] of an identifier that is not in the named
    activity's list raises [ParticipantNotFound] and leaves the store as it
    was. *)
Theorem failure_unchanged σ name e :
  (roster σ !! name = None →
   signup_participant σ name e = Some (Raise ActivityNotFound, σ)) ∧
  (roster σ !! name = None →
   unregister_participant σ name e = Some (Raise ActivityNotFound, σ)) ∧
  (∀ ps, get_participants σ name = Some ps → e ∉ ps →
   unregister_participant σ name e = Some (Raise ParticipantNotFound, σ)).
Proof.
  rewrite signup_participant_run, unregister_participant_run.
  split_and!.
  - by intros ->.
  - by intros ->.
  - intros ps (r & a & Hr & Ha & Hps)%get_participants_Some Hnin.
    rewrite Hr; simpl. rewrite Ha; simpl. rewrite Hps; simpl.
    by apply remove_first_None in Hnin as ->.
Qed.

Lemma failure_unchanged_witness :
  signup_participant sample_signup "Yoga Club" "dave@school.edu"
    = Some (Raise ActivityNotFound, sample_signup) ∧
  unregister_participant sample_unregister "Yoga Club" "alice@school.edu"
    = Some (Raise ActivityNotFound, sample_unregister) ∧
  unregister_participant sample_unregister "Chess Club" "unknown@school.edu"
    = Some (Raise ParticipantNotFound, sample_unregister).
Proof.
  split_and!.
  - apply (failure_unchanged sample_signup "Yoga Club" "dave@school.edu").
    by_evaluation.
  - apply (failure_unchanged sample_unregister "Yoga Club" "alice@school.edu").
    by_evaluation.
  - apply (failure_unchanged sample_unregister "Chess Club"
             "unknown@school.edu")
      with (ps := ["alice@school.edu"; "bob@school.edu"]); by_evaluation.
Defined.

(** Any exception at all comes with the store unchanged. *)
Lemma signup_raise_unchanged σ name e x σ' :
  signup_participant σ name e = Some (Raise x, σ') → σ' = σ.
Proof.
  rewrite signup_participant_run.
  destruct (roster σ !! name) as [r|]; [| by intros [= _ <-]].
  destruct (records σ !! r) as [a|]; simpl; [| done].
  destruct (lists σ !! participants a) as [ps|]; simpl; [| done].
  case_bool_decide; by intros [= _ <-] || intros [=].
Qed.

Lemma unregister_raise_unchanged σ name e x σ' :
  unregister_participant σ name e = Some (Raise x, σ') → σ' = σ.
Proof.
  rewrite unregister_participant_run.
  destruct (roster σ !! name) as [r|]; [| by intros [= _ <-]].
  destruct (records σ !! r) as [a|]; simpl; [| done].
  destruct (lists σ !! participants a) as [ps|]; simpl; [| done].
  destruct (remove_first e ps); by intros [= _ <-] || intros [=].
Qed.

(** ** Signing up and unregistering again *)

Lemma set_lists_restore σ l v w :
  lists σ !! l = Some v →
  set_lists <[l := v]> (set_lists <[l := w]> σ) = σ.
Proof.
  intros Hl. destruct σ as [ro re li]. unfold set_lists; simpl in *.
  f_equal. rewrite insert_insert_eq. by apply insert_id.
Qed.

(** C7. When the named activity exists and its participants list [ps] does
    not hold the identifier, [signup_participant] followed by
    [unregister_participant] with the same arguments both return, and the
    list is [ps] again; indeed the whole store is the one before the
    signup. *)
Theorem signup_unregister_roundtrip σ name e ps :
  get_participants σ name = Some ps →
  e ∉ ps →
  ∃ σ1 σ2,
    signup_participant σ name e = Some (Return (), σ1) ∧
    unregister_participant σ1 name e = Some (Return (), σ2) ∧
    get_participants σ2 name = Some ps ∧
    σ2 = σ.
Proof.
  intros Hget Hnin.
  pose proof Hget as (r & a & Hr & Ha & Hps)%get_participants_Some.
  exists (set_lists <[participants a := ps ++ [e]]> σ), σ. split_and!; try done.
  - by eapply signup_participant_fresh.
  - rewrite <- (set_lists_restore σ (participants a) ps (ps ++ [e]) Hps) at 2.
    eapply unregister_participant_present; [done | done | |].
    + apply lookup_insert_eq.
    + by apply remove_first_snoc.
Qed.

Lemma signup_unregister_roundtrip_witness :
  ∃ σ1,
    signup_participant sample_signup "Chess Club" "henry@school.edu"
      = Some (Return (), σ1) ∧
    unregister_participant σ1 "Chess Club" "henry@school.edu"
      = Some (Return (), sample_signup).
Proof.
  destruct (signup_unregister_roundtrip sample_signup "Chess Club"
              "henry@school.edu" ["alice@school.edu"])
    as (σ1 & σ2 & Hup & Hdown & _ & ->); [by_evaluation | by_evaluation |].
  by exists σ1.
Defined.

(** ** The invariant *)

Lemma no_duplicates_set_lists σ l v :
  NoDup v → no_duplicates σ → no_duplicates (set_lists <[l := v]> σ).
Proof.
  intros Hv Hinv name ps. rewrite get_participants_set_lists.
  intros (a & Ha & Hps)%bind_Some. case_decide.
  - by injection Hps as <-.
  - apply (Hinv name). unfold get_participants. by rewrite Ha.
Qed.

Lemma signup_no_duplicates σ name e o σ' :
  no_duplicates σ → signup_participant σ name e = Some (o, σ') →
  no_duplicates σ'.
Proof.
  intros Hinv. rewrite signup_participant_run.
  destruct (roster σ !! name) as [r|] eqn:Hr; [| by intros [= _ <-]].
  destruct (records σ !! r) as [a|] eqn:Ha; simpl; [| done].
  destruct (lists σ !! participants a) as [ps|] eqn:Hps; simpl; [| done].
  case_bool_decide as Hin; intros [= _ <-]; [done |].
  apply no_duplicates_set_lists; [| done].
  apply NoDup_app. split_and!.
  - apply (Hinv name). apply get_participants_Some. by exists r, a.
  - intros x Hx ->%list_elem_of_singleton. done.
  - apply NoDup_singleton.
Qed.

Lemma unregister_no_duplicates σ name e o σ' :
  no_duplicates σ → unregister_participant σ name e = Some (o, σ') →
  no_duplicates σ'.
Proof.
  intros Hinv. rewrite unregister_participant_run.
  destruct (roster σ !! name) as [r|] eqn:Hr; [| by intros [= _ <-]].
  destruct (records σ !! r) as [a|] eqn:Ha; simpl; [| done].
  destruct (lists σ !! participants a) as [ps|] eqn:Hps; simpl; [| done].
  destruct (remove_first e ps) as [ps'|] eqn:Hrm; intros [= _ <-]; [| done].
  apply no_duplicates_set_lists; [| done].
  eapply remove_first_NoDup; [done |].
  apply (Hinv name). apply get_participants_Some. by exists r, a.
Qed.

(** On a well-formed store both calls come to an end with an outcome. *)
Lemma signup_total σ name e :
  well_formed σ → is_Some (signup_participant σ name e).
Proof.
  intros Hwf. rewrite signup_participant_run.
  destruct (roster σ !! name) as [r|] eqn:Hr; [| by eexists].
  destruct (well_formed_participants σ name Hwf) as [ps Hps]; [by eexists |].
  apply get_participants_Some in Hps as (r' & a & Hr' & Ha & Hps).
  assert (r' = r) as -> by congruence.
  rewrite Ha; simpl. rewrite Hps; simpl. by eexists.
Qed.

Lemma unregister_total σ name e :
  well_formed σ → is_Some (unregister_participant σ name e).
Proof.
  intros Hwf. rewrite unregister_participant_run.
  destruct (roster σ !! name) as [r|] eqn:Hr; [| by eexists].
  destruct (well_formed_participants σ name Hwf) as [ps Hps]; [by eexists |].
  apply get_participants_Some in Hps as (r' & a & Hr' & Ha & Hps).
  assert (r' = r) as -> by congruence.
  rewrite Ha; simpl. rewrite Hps; simpl. by eexists.
Qed.

(** C8. If no participants list of a well-formed store holds an identifier
    twice, then a call of [signup_participant] or of
    [unregister_participant] ends, returning or raising, in a store in which
    again no participants list holds an identifier twice. *)
Theorem no_duplicates_preserved σ name e :
  well_formed σ →
  no_duplicates σ →
  (∃ o σ', signup_participant σ name e = Some (o, σ') ∧ no_duplicates σ') ∧
  (∃ o σ', unregister_participant σ name e = Some (o, σ') ∧ no_duplicates σ').
Proof.
  intros Hwf Hinv. split.
  - destruct (signup_total σ name e Hwf) as [[o σ'] Hrun].
    exists o, σ'. split; [done |]. by eapply signup_no_duplicates.
  - destruct (unregister_total σ name e Hwf) as [[o σ'] Hrun].
    exists o, σ'. split; [done |]. by eapply unregister_no_duplicates.
Qed.

Lemma sample_signup_no_duplicates : no_duplicates sample_signup.
Proof.
  intros name ps (r & a & Hr & Ha & Hps)%get_participants_Some.
  unfold sample_signup in *; simpl in *.
  apply lookup_insert_Some in Hr as [[_ <-]|[_ Hr]].
  - rewrite lookup_insert_eq in Ha. injection Ha as <-.
    simpl in Hps. rewrite lookup_insert_eq in Hps. injection Hps as <-.
    apply NoDup_singleton.
  - apply lookup_singleton_Some in Hr as [_ <-].
    rewrite lookup_insert_ne, lookup_singleton_eq in Ha by done.
    injection Ha as <-. simpl in Hps.
    rewrite lookup_insert_ne, lookup_singleton_eq in Hps by done.
    injection Hps as <-. apply NoDup_nil_2.
Qed.

Lemma no_duplicates_preserved_witness :
  ∃ σ', signup_participant sample_signup "Chess Club" "bob@school.edu"
          = Some (Return (), σ') ∧ no_duplicates σ'.
Proof.
  assert (Hwf : well_formed sample_signup) by by_evaluation.
  destruct (no_duplicates_preserved sample_signup "Chess Club"
              "bob@school.edu" Hwf sample_signup_no_duplicates)
    as [(o & σ' & Hrun & Hinv) _].
  exists σ'. split; [| exact Hinv].
  rewrite Hrun. f_equal. f_equal.
  assert (Hfst : fst <$> signup_participant sample_signup "Chess Club"
                   "bob@school.edu" = Some (Return ())) by by_evaluation.
  rewrite Hrun in Hfst. by injection Hfst.
Defined.

(** ** The capacity *)

Lemma signup_map_capacity f σ name e :
  signup_participant (map_capacity f σ) name e =
  prod_map id (map_capacity f) <$> signup_participant σ name e.
Proof.
  rewrite !signup_participant_run. simpl.
  destruct (roster σ !! name) as [r|]; [| done].
  rewrite lookup_fmap. destruct (records σ !! r) as [a|]; simpl; [| done].
  destruct (lists σ !! participants a) as [ps|]; simpl; [| done].
  by case_bool_decide.
Qed.

(** C9. When the named activity exists and its participants list [ps] does
    not hold the identifier, [signup_participant] returns with the
    identifier appended, whatever ["max_participants"] is: nothing is
    assumed about it, and replacing every capacity of the store by any
    other value gives the same outcome and the same store up to that
    replacement. *)
Theorem signup_ignores_capacity σ name e a ps :
  get_activity σ name = Some a →
  lists σ !! participants a = Some ps →
  e ∉ ps →
  (∃ σ', signup_participant σ name e = Some (Return (), σ') ∧
         get_participants σ' name = Some (ps ++ [e]) ∧
         (max_participants <$> get_activity σ' name)
           = Some (max_participants a)) ∧
  (∀ f, signup_participant (map_capacity f σ) name e =
        prod_map id (map_capacity f) <$> signup_participant σ name e).
Proof.
  intros Hact Hps Hnin. split; [| intros f; apply signup_map_capacity].
  pose proof Hact as (r & Hr & Ha)%bind_Some.
  eexists. split_and!.
  - by eapply signup_participant_fresh.
  - by eapply get_participants_updated.
  - by rewrite get_activity_set_lists, Hact.
Qed.

Lemma signup_ignores_capacity_witness :
  (max_participants <$> get_activity sample_full "Chess Club") = Some 1 ∧
  (length <$> get_participants sample_full "Chess Club") = Some 1%nat ∧
  ∃ σ', signup_participant sample_full "Chess Club" "bob@school.edu"
          = Some (Return (), σ') ∧
        get_participants σ' "Chess Club"
          = Some ["alice@school.edu"; "bob@school.edu"].
Proof.
  split_and!; [by_evaluation | by_evaluation |].
  destruct (signup_ignores_capacity sample_full "Chess Club" "bob@school.edu"
              (mkActivity "Learn chess strategies" "Friday 3:30 PM" 1 0%nat)
              ["alice@school.edu"])
    as [(σ' & Hrun & Hps' & _) _]; [by_evaluation | by_evaluation | by_evaluation |].
  by exists σ'.
Defined.

(** ** What a successful call leaves alone *)

(** C10, as claimed, does not hold: in [sample_shared] the two activities
    hold one list object, and a successful signup to ["Chess Club"] changes
    the record of ["Chess Team"] as well. *)
Lemma frame_shared_counterexample :
  signup_participant sample_shared "Chess Club" "bob@school.edu"
    = Some (Return (), sample_shared_after) ∧
  "Chess Team" ≠ "Chess Club" ∧
  snapshot sample_shared "Chess Team"
    = Some ("Play in tournaments", "Saturday 10:00 AM", 8,
            ["alice@school.edu"]) ∧
  snapshot sample_shared_after "Chess Team"
    = Some ("Play in tournaments", "Saturday 10:00 AM", 8,
            ["alice@school.edu"; "bob@school.edu"]) ∧
  snapshot sample_shared_after "Chess Team"
    ≠ snapshot sample_shared "Chess Team".
Proof.
  split_and!; [by_evaluation | done | by_evaluation | by_evaluation |].
  vm_compute. discriminate.
Qed.

Lemma success_only_lists σ name e σ' :
  signup_participant σ name e = Some (Return (), σ') ∨
  unregister_participant σ name e = Some (Return (), σ') →
  ∃ r a v, roster σ !! name = Some r ∧ records σ !! r = Some a ∧
           σ' = set_lists <[participants a := v]> σ.
Proof.
  rewrite signup_participant_run, unregister_participant_run.
  destruct (roster σ !! name) as [r|] eqn:Hr; [| by intros [[=]|[=]]].
  destruct (records σ !! r) as [a|] eqn:Ha; simpl; [| by intros [[=]|[=]]].
  destruct (lists σ !! participants a) as [ps|]; simpl; [| by intros [[=]|[=]]].
  intros [Hrun|Hrun].
  - case_bool_decide; [done |]. injection Hrun as <-. by eexists r, a, _.
  - destruct (remove_first e ps); [| done]. injection Hrun as <-.
    by eexists r, a, _.
Qed.

(** C10, amended. A call of [signup_participant] or
    [unregister_participant] that returns leaves the dictionary and hence
    its set of names as it was, leaves every activity object as it was (so
    the description, schedule and capacity of the named activity stay), and
    leaves the record of every other activity as it was provided that
    activity does not hold the same list object as the named one. *)
Theorem success_frame σ name e σ' :
  signup_participant σ name e = Some (Return (), σ') ∨
  unregister_participant σ name e = Some (Return (), σ') →
  roster σ' = roster σ ∧
  dom (roster σ') = dom (roster σ) ∧
  records σ' = records σ ∧
  ∃ a, get_activity σ name = Some a ∧ get_activity σ' name = Some a ∧
    ∀ other b, other ≠ name → get_activity σ other = Some b →
      participants b ≠ participants a →
      snapshot σ' other = snapshot σ other.
Proof.
  intros (r & a & v & Hr & Ha & ->)%success_only_lists.
  split_and!; [done | done | done |].
  assert (Hact : get_activity σ name = Some a).
  { unfold get_activity. by rewrite Hr. }
  exists a. split_and!; [done | done |].
  intros other b _ Hb Hne. unfold snapshot.
  rewrite get_activity_set_lists, Hb. simpl.
  by rewrite lookup_insert_ne.
Qed.

Lemma success_frame_witness :
  ∃ σ', signup_participant sample_signup "Chess Club" "bob@school.edu"
          = Some (Return (), σ') ∧
        dom (roster σ') = dom (roster sample_signup) ∧
        snapshot σ' "Basketball" = snapshot sample_signup "Basketball".
Proof.
  assert (Hrun : ∃ σ', signup_participant sample_signup "Chess Club"
                         "bob@school.edu" = Some (Return (), σ'))
    by (eexists; by_evaluation).
  destruct Hrun as [σ' Hrun]. exists σ'. split; [exact Hrun |].
  destruct (success_frame sample_signup "Chess Club" "bob@school.edu" σ'
              (or_introl Hrun)) as (_ & Hdom & _ & a & Ha & _ & Hother).
  split; [exact Hdom |].
  apply (Hother "Basketball" basketball); [done | by_evaluation |].
  assert (Hchess : get_activity sample_signup "Chess Club" = Some chess)
    by by_evaluation.
  rewrite Hchess in Ha. injection Ha as <-. simpl. lia.
Defined.

(** ** Calls in sequence *)

Lemma occurrences_app x xs ys :
  occurrences x (xs ++ ys) = (occurrences x xs + occurrences x ys)%nat.
Proof. unfold occurrences. by rewrite filter_app, length_app. Qed.

Lemma occurrences_cons x y xs :
  occurrences x (y :: xs)
    = ((if decide (x = y) then 1 else 0) + occurrences x xs)%nat.
Proof.
  unfold occurrences. case_decide as Hxy.
  - by rewrite filter_cons_True.
  - rewrite filter_cons_False; [done | congruence].
Qed.

Lemma occurrences_zero x xs : occurrences x xs = 0%nat ↔ x ∉ xs.
Proof.
  split; [| apply occurrences_fresh].
  induction xs as [|y ys IH]; [intros _; apply not_elem_of_nil |].
  rewrite occurrences_cons, not_elem_of_cons. case_decide; [lia |].
  intros Hz. split; [done | apply IH; lia].
Qed.

(** What a returning [unregister_participant] did. *)
Lemma unregister_returns_inv σ name e ps σ' :
  get_participants σ name = Some ps →
  unregister_participant σ name e = Some (Return (), σ') →
  ∃ r a l1 l2,
    roster σ !! name = Some r ∧ records σ !! r = Some a ∧
    ps = l1 ++ e :: l2 ∧ (e ∉ l1) ∧
    σ' = set_lists <[participants a := l1 ++ l2]> σ ∧
    get_participants σ' name = Some (l1 ++ l2).
Proof.
  intros (r & a & Hr & Ha & Hps)%get_participants_Some.
  rewrite unregister_participant_run, Hr; simpl. rewrite Ha; simpl.
  rewrite Hps; simpl.
  destruct (remove_first e ps) as [ps'|] eqn:Hrm; [| done].
  intros [= <-]. apply remove_first_Some in Hrm as (l1 & l2 & -> & Hnin & ->).
  exists r, a, l1, l2. split_and!; try done.
  by eapply get_participants_updated.
Qed.

(** What a returning [signup_participant] did. *)
Lemma signup_returns_inv σ name e ps σ' :
  get_participants σ name = Some ps →
  signup_participant σ name e = Some (Return (), σ') →
  ∃ r a,
    roster σ !! name = Some r ∧ records σ !! r = Some a ∧ (e ∉ ps) ∧
    σ' = set_lists <[participants a := ps ++ [e]]> σ ∧
    get_participants σ' name = Some (ps ++ [e]).
Proof.
  intros (r & a & Hr & Ha & Hps)%get_participants_Some.
  rewrite signup_participant_run, Hr; simpl. rewrite Ha; simpl.
  rewrite Hps; simpl. case_bool_decide as Hin; [done |].
  intros [= <-]. exists r, a. split_and!; try done.
  by eapply get_participants_updated.
Qed.

Lemma signup_participant_dup σ name e ps :
  get_participants σ name = Some ps → e ∈ ps →
  signup_participant σ name e = Some (Raise ValueError, σ).
Proof.
  intros (r & a & Hr & Ha & Hps)%get_participants_Some Hin.
  rewrite signup_participant_run, Hr; simpl. rewrite Ha; simpl.
  rewrite Hps; simpl. by rewrite bool_decide_eq_true_2.
Qed.

Lemma unregister_participant_absent σ name e ps :
  get_participants σ name = Some ps →
  raises (unregister_participant σ name e) ParticipantNotFound ↔ e ∉ ps.
Proof.
  intros (r & a & Hr & Ha & Hps)%get_participants_Some.
  rewrite unregister_participant_run, Hr; simpl. rewrite Ha; simpl.
  rewrite Hps; simpl. destruct (remove_first e ps) as [ps'|] eqn:Hrm.
  - split; [by intros [σ' [=]] |]. intros Hnin%remove_first_None. congruence.
  - apply remove_first_None in Hrm. split; [done | intros _; by exists σ].
Qed.

(** X1. A signup that has returned cannot be repeated: the same call on
    the store it left raises [ValueError] and leaves that store as it is. *)
Theorem signup_again_rejected σ name e σ' :
  signup_participant σ name e = Some (Return (), σ') →
  signup_participant σ' name e = Some (Raise ValueError, σ').
Proof.
  intros Hrun.
  destruct (get_participants σ name) as [ps|] eqn:Hget.
  - destruct (signup_returns_inv _ _ _ _ _ Hget Hrun)
      as (r & a & _ & _ & _ & _ & Hget').
    apply (signup_participant_dup _ _ _ _ Hget').
    rewrite elem_of_app, list_elem_of_singleton. by right.
  - exfalso. revert Hrun. rewrite signup_participant_run.
    unfold get_participants, get_activity in Hget.
    destruct (roster σ !! name) as [r|]; [| done]. simpl in *.
    destruct (records σ !! r) as [a|]; simpl in *; [| done].
    by rewrite Hget.
Qed.

Lemma signup_again_rejected_witness :
  ∃ σ', signup_participant sample_signup "Basketball" "eve@school.edu"
          = Some (Return (), σ') ∧
        signup_participant σ' "Basketball" "eve@school.edu"
          = Some (Raise ValueError, σ').
Proof.
  eexists. split; [by_evaluation |].
  apply (signup_again_rejected sample_signup). by_evaluation.
Defined.

(** X2. After an unregister that has returned, the same call raises
    [ParticipantNotFound] exactly when the identifier occurred once in the
    list before the first call; if it occurred more often, one occurrence
    is left and the second call does not raise it. *)
Theorem unregister_again_outcome σ name e ps σ' :
  get_participants σ name = Some ps →
  unregister_participant σ name e = Some (Return (), σ') →
  raises (unregister_participant σ' name e) ParticipantNotFound ↔
  occurrences e ps = 1%nat.
Proof.
  intros Hget Hrun.
  destruct (unregister_returns_inv _ _ _ _ _ Hget Hrun)
    as (r & a & l1 & l2 & _ & _ & -> & Hnin & _ & Hget').
  rewrite (unregister_participant_absent _ _ _ _ Hget').
  rewrite occurrences_app, occurrences_cons, decide_True by done.
  rewrite (occurrences_fresh _ _ Hnin), not_elem_of_app.
  rewrite <- (occurrences_zero e l2). intuition lia.
Qed.

Lemma unregister_again_outcome_witness :
  ∃ σ', unregister_participant sample_unregister "Chess Club"
          "alice@school.edu" = Some (Return (), σ') ∧
        raises (unregister_participant σ' "Chess Club" "alice@school.edu")
          ParticipantNotFound.
Proof.
  eexists. split; [by_evaluation |].
  apply (unregister_again_outcome sample_unregister "Chess Club"
           "alice@school.edu" ["alice@school.edu"; "bob@school.edu"]);
    by_evaluation.
Defined.

(** X3. Unregistering an identifier of a duplicate-free list and signing
    it up again both return, and the identifier ends up last: the list is
    the old one with the identifier moved to the end, a rearrangement of the
    old list, and equal to it only when the identifier was last already. *)
Theorem unregister_signup_moves_last σ name e ps :
  get_participants σ name = Some ps →
  NoDup ps →
  e ∈ ps →
  ∃ σ1 σ2 l1 l2,
    unregister_participant σ name e = Some (Return (), σ1) ∧
    signup_participant σ1 name e = Some (Return (), σ2) ∧
    ps = l1 ++ e :: l2 ∧
    get_participants σ2 name = Some (l1 ++ l2 ++ [e]) ∧
    l1 ++ l2 ++ [e] ≡ₚ ps ∧
    (l1 ++ l2 ++ [e] = ps ↔ l2 = []).
Proof.
  intros Hget Hnd Hin.
  pose proof Hget as (r & a & Hr & Ha & Hps)%get_participants_Some.
  destruct (remove_first_is_Some e ps Hin) as [ps' Hrm].
  pose proof (remove_first_NoDup _ _ _ Hrm Hnd) as [_ Hnin'].
  pose proof Hrm as (l1 & l2 & -> & Hnin & ->)%remove_first_Some.
  eexists _, _, l1, l2. split_and!.
  - by eapply unregister_participant_present.
  - eapply (signup_participant_fresh _ _ _ r a (l1 ++ l2)); [done | done | | done].
    apply lookup_insert_eq.
  - done.
  - rewrite (assoc_L (++) l1 l2 [e]). by eapply get_participants_updated.
  - apply Permutation_app_head. symmetry. apply Permutation_cons_append.
  - split.
    + intros Heq%app_inv_head. destruct l2 as [|z l2]; [done |].
      injection Heq as -> _. exfalso. apply Hnin'.
      rewrite elem_of_app. right. left.
    + by intros ->.
Qed.

Lemma unregister_signup_moves_last_witness :
  ∃ σ1 σ2 qs,
    unregister_participant sample_unregister "Chess Club" "alice@school.edu"
      = Some (Return (), σ1) ∧
    signup_participant σ1 "Chess Club" "alice@school.edu"
      = Some (Return (), σ2) ∧
    get_participants σ2 "Chess Club" = Some qs ∧
    qs ≡ₚ ["alice@school.edu"; "bob@school.edu"].
Proof.
  destruct (unregister_signup_moves_last sample_unregister "Chess Club"
              "alice@school.edu" ["alice@school.edu"; "bob@school.edu"])
    as (σ1 & σ2 & l1 & l2 & Hdown & Hup & _ & Hget & Hperm & _);
    [by_evaluation | | by_evaluation |].
  { apply (bool_decide_unpack _). vm_compute. exact I. }
  by exists σ1, σ2, (l1 ++ l2 ++ ["alice@school.edu"]).
Defined.

(** ** The signup loop *)

Lemma signup_each_app σ name s1 s2 :
  signup_each σ name (s1 ++ s2) =
  match signup_each σ name s1 with
  | Some (Return _, σ') => signup_each σ' name s2
  | Some (Raise x, σ') => Some (Raise x, σ')
  | None => None
  end.
Proof.
  revert σ. induction s1 as [|x s1 IH]; intros σ; simpl; [done |].
  destruct (signup_participant σ name x) as [[[[]|y] σ']|]; by rewrite ?IH.
Qed.

Lemma signup_each_fresh students : ∀ σ name ps,
  get_participants σ name = Some ps →
  NoDup students →
  (∀ x, x ∈ students → x ∉ ps) →
  ∃ σ', signup_each σ name students = Some (Return (), σ') ∧
        get_participants σ' name = Some (ps ++ students).
Proof.
  induction students as [|x rest IH]; intros σ name ps Hget Hnd Hfresh; simpl.
  - exists σ. by rewrite app_nil_r.
  - apply NoDup_cons in Hnd as [Hx Hnd].
    pose proof Hget as (r & a & Hr & Ha & Hps)%get_participants_Some.
    assert (Hnin : x ∉ ps) by (apply Hfresh; left).
    rewrite (signup_participant_fresh _ _ _ _ _ _ Hr Ha Hps Hnin).
    destruct (IH (set_lists <[participants a := ps ++ [x]]> σ) name (ps ++ [x]))
      as (σ' & Hrun & Hget'); [by eapply get_participants_updated | done | |].
    + intros y Hy. rewrite not_elem_of_app, list_elem_of_singleton.
      split; [apply Hfresh; by right | by intros ->].
    + exists σ'. split; [done |]. by rewrite cons_middle, (assoc_L (++)).
Qed.

(** X4. Signing up, one after the other, students that are pairwise
    different and not yet in the list returns, and the list is the old one
    followed by the students in the order of the calls. *)
Theorem signup_each_appends_all σ name ps students :
  get_participants σ name = Some ps →
  NoDup students →
  (∀ x, x ∈ students → x ∉ ps) →
  ∃ σ', signup_each σ name students = Some (Return (), σ') ∧
        get_participants σ' name = Some (ps ++ students) ∧
        length (ps ++ students) = (length ps + length students)%nat.
Proof.
  intros Hget Hnd Hfresh.
  destruct (signup_each_fresh students σ name ps Hget Hnd Hfresh)
    as (σ' & Hrun & Hget').
  exists σ'. split_and!; [done | done | apply length_app].
Qed.

Lemma signup_each_appends_all_witness :
  ∃ σ', signup_each sample_signup "Basketball"
          ["iris@school.edu"; "jack@school.edu"; "kate@school.edu"]
          = Some (Return (), σ') ∧
        get_participants σ' "Basketball"
          = Some ["iris@school.edu"; "jack@school.edu"; "kate@school.edu"].
Proof.
  destruct (signup_each_appends_all sample_signup "Basketball" []
              ["iris@school.edu"; "jack@school.edu"; "kate@school.edu"])
    as (σ' & Hrun & Hget & _).
  - by_evaluation.
  - apply (bool_decide_unpack _). vm_compute. exact I.
  - intros x _. apply not_elem_of_nil.
  - by exists σ'.
Defined.

(** X5. The loop stops at the first student that is in the list already or
    was signed up earlier in the loop: it raises [ValueError] there, and the
    students before that one stay signed up. *)
Theorem signup_each_stops_at_duplicate σ name ps s1 x s2 :
  get_participants σ name = Some ps →
  NoDup s1 →
  (∀ y, y ∈ s1 → y ∉ ps) →
  x ∈ ps ++ s1 →
  ∃ σ', signup_each σ name (s1 ++ x :: s2) = Some (Raise ValueError, σ') ∧
        get_participants σ' name = Some (ps ++ s1).
Proof.
  intros Hget Hnd Hfresh Hx.
  destruct (signup_each_fresh s1 σ name ps Hget Hnd Hfresh)
    as (σ' & Hrun & Hget').
  exists σ'. split; [| done].
  rewrite signup_each_app, Hrun. simpl.
  by rewrite (signup_participant_dup _ _ _ _ Hget' Hx).
Qed.

Lemma signup_each_stops_at_duplicate_witness :
  ∃ σ', signup_each sample_signup "Basketball"
          ["eve@school.edu"; "eve@school.edu"; "frank@school.edu"]
          = Some (Raise ValueError, σ') ∧
        get_participants σ' "Basketball" = Some ["eve@school.edu"].
Proof.
  destruct (signup_each_stops_at_duplicate sample_signup "Basketball" []
              ["eve@school.edu"] "eve@school.edu" ["frank@school.edu"])
    as (σ' & Hrun & Hget).
  - by_evaluation.
  - apply (bool_decide_unpack _). vm_compute. exact I.
  - intros y _. apply not_elem_of_nil.
  - by_evaluation.
  - by exists σ'.
Defined.

(** ** Counting occurrences *)

(** X6. An unregister that returns takes away one occurrence of the
    identifier and none of any other identifier; so the identifier is gone
    from the list exactly when it occurred once. *)
Theorem unregister_occurrences σ name e ps σ' :
  get_participants σ name = Some ps →
  unregister_participant σ name e = Some (Return (), σ') →
  ∃ ps', get_participants σ' name = Some ps' ∧
    (∀ x, occurrences x ps
          = (occurrences x ps' + if decide (x = e) then 1 else 0)%nat) ∧
    (e ∉ ps' ↔ occurrences e ps = 1%nat).
Proof.
  intros Hget Hrun.
  destruct (unregister_returns_inv _ _ _ _ _ Hget Hrun)
    as (r & a & l1 & l2 & _ & _ & -> & Hnin & _ & Hget').
  exists (l1 ++ l2). split; [done |].
  assert (Hcount : ∀ x, occurrences x (l1 ++ e :: l2)
            = (occurrences x (l1 ++ l2) + if decide (x = e) then 1 else 0)%nat).
  { intros x. rewrite !occurrences_app, occurrences_cons. lia. }
  split; [done |].
  rewrite Hcount, decide_True by done.
  rewrite <- (occurrences_zero e (l1 ++ l2)). lia.
Qed.

Lemma unregister_occurrences_witness :
  ∃ σ' ps', unregister_participant sample_unregister "Chess Club"
              "alice@school.edu" = Some (Return (), σ') ∧
            get_participants σ' "Chess Club" = Some ps' ∧
            occurrences "bob@school.edu" ps' = 1%nat.
Proof.
  assert (Hrun : ∃ σ', unregister_participant sample_unregister "Chess Club"
                         "alice@school.edu" = Some (Return (), σ'))
    by (eexists; by_evaluation).
  destruct Hrun as [σ' Hrun].
  destruct (unregister_occurrences sample_unregister "Chess Club"
              "alice@school.edu" ["alice@school.edu"; "bob@school.edu"] σ')
    as (ps' & Hget & Hcount & _); [by_evaluation | done |].
  exists σ', ps'. split_and!; [done | done |].
  specialize (Hcount "bob@school.edu").
  assert (Hbob : occurrences "bob@school.edu"
            ["alice@school.edu"; "bob@school.edu"] = 1%nat) by by_evaluation.
  rewrite Hbob, decide_False in Hcount by done. lia.
Defined.

(** ** Which exceptions can come out *)



(** ** One list object under two activities *)



(** ** Calls that do not disturb each other *)




Lemma remove_first_app_l x xs xs' ys :
  remove_first x xs = Some xs' → remove_first x (xs ++ ys) = Some (xs' ++ ys).
Proof.
  intros (l1 & l2 & -> & Hnin & ->)%remove_first_Some.
  apply remove_first_Some. exists l1, (l2 ++ ys).
  by rewrite <- !(assoc_L (++)).
Qed.

(** X10. In one activity, unregistering a present identifier and signing up
    a different, absent one can be done in either order: both orders return
    and leave the same store. *)
Theorem unregister_signup_commute σ name e1 e2 ps :
  get_participants σ name = Some ps →
  e1 ∈ ps →
  e2 ∉ ps →
  ∃ σ1 σ2 σ' ps',
    unregister_participant σ name e1 = Some (Return (), σ1) ∧
    signup_participant σ1 name e2 = Some (Return (), σ') ∧
    signup_participant σ name e2 = Some (Return (), σ2) ∧
    unregister_participant σ2 name e1 = Some (Return (), σ') ∧
    remove_first e1 ps = Some ps' ∧
    get_participants σ' name = Some (ps' ++ [e2]).
Proof.
  intros (r & a & Hr & Ha & Hps)%get_participants_Some Hin Hnin.
  destruct (remove_first_is_Some e1 ps Hin) as [ps' Hrm].
  assert (Hnin' : e2 ∉ ps').
  { intros Hin'. apply Hnin.
    eapply elem_of_sublist; [done | by eapply remove_first_sublist]. }
  assert (Hfinal :
    set_lists <[participants a := ps' ++ [e2]]>
      (set_lists <[participants a := ps']> σ)
    = set_lists <[participants a := ps' ++ [e2]]>
        (set_lists <[participants a := ps ++ [e2]]> σ)).
  { unfold set_lists; simpl. f_equal. by rewrite !insert_insert_eq. }
  eexists _, _, _, ps'. split_and!.
  - by eapply unregister_participant_present.
  - eapply (signup_participant_fresh _ _ _ r a ps'); [done | done | | done].
    apply lookup_insert_eq.
  - by eapply signup_participant_fresh.
  - rewrite Hfinal.
    eapply unregister_participant_present; [done | done | |].
    + apply lookup_insert_eq.
    + by apply remove_first_app_l.
  - done.
  - by eapply get_participants_updated.
Qed.

Lemma unregister_signup_commute_witness :
  ∃ σ1 σ2 σ',
    unregister_participant sample_unregister "Chess Club" "alice@school.edu"
      = Some (Return (), σ1) ∧
    signup_participant σ1 "Chess Club" "dave@school.edu"
      = Some (Return (), σ') ∧
    signup_participant sample_unregister "Chess Club" "dave@school.edu"
      = Some (Return (), σ2) ∧
    unregister_participant σ2 "Chess Club" "alice@school.edu"
      = Some (Return (), σ').
Proof.
  destruct (unregister_signup_commute sample_unregister "Chess Club"
              "alice@school.edu" "dave@school.edu"
              ["alice@school.edu"; "bob@school.edu"])
    as (σ1 & σ2 & σ' & ps' & H1 & H2 & H3 & H4 & _);
    [by_evaluation | by_evaluation | by_evaluation |].
  by exists σ1, σ2, σ'.
Defined.

(** ** The capacity and unregistering *)

(** X11. [unregister_participant] does not look at ["max_participants"]
    either: replacing every capacity of the store by any other value gives
    the same outcome and the same store up to that replacement. *)
Theorem unregister_ignores_capacity f σ name e :
  unregister_participant (map_capacity f σ) name e =
  prod_map id (map_capacity f) <$> unregister_participant σ name e.
Proof.
  rewrite !unregister_participant_run. simpl.
  destruct (roster σ !! name) as [r|]; [| done].
  rewrite lookup_fmap. destruct (records σ !! r) as [a|]; simpl; [| done].
  destruct (lists σ !! participants a) as [ps|]; simpl; [| done].
  by destruct (remove_first e ps).
Qed.

End Activities.
